(** * The Aurora Serverless connection manager
      ([lib/dialects/auroraSls/connection-manager.js])

    A shallow embedding of the [ConnectionManager] class and of the
    JavaScript machinery its behaviour depends on: truthiness, property
    reads, exceptions, callbacks that run from the event loop, promises and
    the module-level parser store. *)

From Stdlib Require Import ZArith String List.
From stdpp Require Import base option list gmap strings.

Local Open Scope string_scope.
Local Open Scope list_scope.
Set Warnings "-register-all".

(** ** JavaScript values *)

(** The values that travel through the manager without being called:
    raw transport errors, result sets, option fields, the port. Numbers are
    the integral ones. *)
Inductive JsVal : Type :=
| JUndefined
| JNull
| JBool (b : bool)
| JNum (n : Z)
| JStr (s : string)
| JObj (props : list (string * JsVal)).

(** [if (v)] *)
Definition truthy (v : JsVal) : bool :=
  match v with
  | JUndefined | JNull => false
  | JBool b => b
  | JNum n => negb (Z.eqb n 0)
  | JStr s => negb (String.eqb s "")
  | JObj _ => true
  end.

(** [a || b] *)
Definition js_or (a b : JsVal) : JsVal := if truthy a then a else b.

Fixpoint own_prop (name : string) (props : list (string * JsVal)) : JsVal :=
  match props with
  | [] => JUndefined
  | (k, v) :: rest => if String.eqb k name then v else own_prop name rest
  end.

(** [v.name] for a [v] that is neither [null] nor [undefined]: an object
    yields its own property, a primitive has none of the names read here. *)
Definition get_prop (name : string) (v : JsVal) : JsVal :=
  match v with
  | JObj props => own_prop name props
  | _ => JUndefined
  end.

(** [v === 'label'], the comparison a [switch] makes against a string
    [case] label. *)
Definition is_string (label : string) (v : JsVal) : bool :=
  match v with
  | JStr s => String.eqb s label
  | _ => false
  end.

(** ** Errors *)

(** The constructors of [SequelizeErrors] that the manager calls; each one
    keeps the error it is given as its parent. *)
Inductive SequelizeError : Type :=
| ConnectionRefusedError (parent : JsVal)
| AccessDeniedError (parent : JsVal)
| HostNotFoundError (parent : JsVal)
| HostNotReachableError (parent : JsVal)
| InvalidConnectionError (parent : JsVal)
| ConnectionError (parent : JsVal).

Definition parent_of (e : SequelizeError) : JsVal :=
  match e with
  | ConnectionRefusedError p | AccessDeniedError p | HostNotFoundError p
  | HostNotReachableError p | InvalidConnectionError p | ConnectionError p => p
  end.

Inductive ErrorKind : Type :=
| ConnectionRefused | AccessDenied | HostNotFound | HostNotReachable
| InvalidConnection | GenericConnectionError.

Definition kind_of (e : SequelizeError) : ErrorKind :=
  match e with
  | ConnectionRefusedError _ => ConnectionRefused
  | AccessDeniedError _ => AccessDenied
  | HostNotFoundError _ => HostNotFound
  | HostNotReachableError _ => HostNotReachable
  | InvalidConnectionError _ => InvalidConnection
  | ConnectionError _ => GenericConnectionError
  end.

(** What a [throw] can carry here. *)
Inductive JsError : Type :=
| TypeError (reading : string)
| Typed (e : SequelizeError).

(** How the evaluation of a call ends. *)
Inductive Completion (A : Type) : Type :=
| Returned (a : A)
| Threw (e : JsError).
Arguments Returned {A} a.
Arguments Threw {A} e.

(** The [switch (err.code)] of the probe callback. *)
Definition classify (err : JsVal) : SequelizeError :=
  let code := get_prop "code" err in
  if is_string "ECONNREFUSED" code then ConnectionRefusedError err
  else if is_string "ER_ACCESS_DENIED_ERROR" code then AccessDeniedError err
  else if is_string "ENOTFOUND" code then HostNotFoundError err
  else if is_string "EHOSTUNREACH" code then HostNotReachableError err
  else if is_string "EINVAL" code then InvalidConnectionError err
  else ConnectionError err.

(** ** Configuration *)

Record DialectOptions : Type := {
  awsConfig : JsVal;
  awsSecretStoreArn : JsVal;
  dbClusterOrInstanceArn : JsVal;
  database : JsVal;
  schema : JsVal
}.

(** The [config] that the pool hands to [connect]. *)
Record Config : Type := {
  dialectOptions : DialectOptions
}.

(** ** The transport client *)

(** The object given to [rds.executeSql]. *)
Module Params.
Record t : Type := {
  awsSecretStoreArn : JsVal;
  dbClusterOrInstanceArn : JsVal;
  sqlStatements : JsVal;
  database : JsVal;
  schema : JsVal
}.
End Params.

(** An [RDSDataService] client. The wire protocol is not part of this
    code; what matters to it is when the client calls the handler back:
    [immediate params = Some (err, data)] is a client that calls the
    handler before [executeSql] returns, [None] one that calls it later,
    from the event loop. *)
Record RdsClient : Type := {
  client_config : JsVal;
  immediate : Params.t -> option (JsVal * JsVal)
}.

(** The ['aws-sdk'] module: [new lib.RDSDataService(awsConfig)]. *)
Record Lib : Type := {
  RDSDataService : JsVal -> RdsClient
}.

(** ** Connections, handlers, promises *)

(** The arrow function [({ sql }, handler) => rds.executeSql(...)] as a
    closure: its code is [call_query] below, its environment the two
    variables it captures. *)
Inductive QueryFn : Type :=
| QueryClosure (rds : RdsClient) (captured : DialectOptions).

(** [{ query, execute: query }] *)
Record Connection : Type := {
  query : QueryFn;
  execute : QueryFn
}.

Record Request : Type := {
  sql : JsVal
}.

Definition PromiseRef : Type := nat.

(** Completion handlers. The probe callback of [connect] captures the
    connection and the [resolve] of its promise; the handlers of the
    connection's users are opaque and known by a name. *)
Inductive Handler : Type :=
| ProbeCallback (connection : Connection) (resolve : PromiseRef)
| CallerHandler (name : nat).

(** What a variable can hold besides plain data. *)
Inductive Value : Type :=
| VJs (v : JsVal)
| VConnection (c : Connection).

Inductive PromiseState : Type :=
| Pending
| Fulfilled (v : Value)
| Rejected (e : JsError).

(** One call received by the transport client. *)
Record Call : Type := {
  client : RdsClient;
  params : Params.t;
  handler : Handler
}.

(** One invocation of a user's handler: [handler(err, data)]. *)
Record Invocation : Type := {
  callee : nat;
  err_arg : JsVal;
  data_arg : JsVal
}.

(** ** Decoding functions and the parser store *)

Record FieldMeta : Type := {
  type : string;
  raw : JsVal
}.

(** [next]: the transport's own decoding of the field. *)
Definition Next : Type := unit -> Completion JsVal.

(** A parse function: [(field, options, next) => value]. *)
Definition DecodeFn : Type := FieldMeta -> JsVal -> Next -> Completion JsVal.

(** What [parserStore.refresh] is given: a type identifier and the function
    that decodes it. *)
Record DataType : Type := {
  typeId : string;
  parse : DecodeFn
}.

(** Modelled from the spec: the module [../parserStore] is not part of the
    sources at hand. The specification describes it as a keyed store of
    decode functions with three operations: [refresh(typeId, decodeFn)]
    installs or overrides the function of [typeId] (last write wins),
    [clear()] removes every registered function, and [get(typeId)] returns
    the function or nothing. *)
Module parserStore.
Abbreviation t := (gmap string DecodeFn).

Definition refresh (dataType : DataType) (store : t) : t :=
  <[typeId dataType := parse dataType]> store.

Definition clear (store : t) : t := ∅.

Definition get (T : string) (store : t) : option DecodeFn := store !! T.
End parserStore.

(** ** The world the manager runs in *)

Record World : Type := {
  calls : list Call;                (* received by the transport, oldest first *)
  promises : list PromiseState;     (* the promises created so far *)
  invocations : list Invocation;    (* calls made to the users' handlers *)
  uncaught : list JsError;          (* faults that reached the event loop *)
  parsers : gmap string DecodeFn    (* the state of [parserStore('mysql')] *)
}.

Definition set_calls (cs : list Call) (w : World) : World :=
  {| calls := cs; promises := promises w; invocations := invocations w;
     uncaught := uncaught w; parsers := parsers w |}.

Definition set_promises (ps : list PromiseState) (w : World) : World :=
  {| calls := calls w; promises := ps; invocations := invocations w;
     uncaught := uncaught w; parsers := parsers w |}.

Definition set_invocations (ivs : list Invocation) (w : World) : World :=
  {| calls := calls w; promises := promises w; invocations := ivs;
     uncaught := uncaught w; parsers := parsers w |}.

Definition set_uncaught (es : list JsError) (w : World) : World :=
  {| calls := calls w; promises := promises w; invocations := invocations w;
     uncaught := es; parsers := parsers w |}.

Definition set_parsers (st : gmap string DecodeFn) (w : World) : World :=
  {| calls := calls w; promises := promises w; invocations := invocations w;
     uncaught := uncaught w; parsers := st |}.

(** Code that reads and writes the world and may throw. *)
Definition M (A : Type) : Type := World -> Completion A * World.

Definition ret {A} (a : A) : M A := fun w => (Returned a, w).

Definition throw {A} (e : JsError) : M A := fun w => (Threw e, w).

Definition bind {A B} (m : M A) (k : A -> M B) : M B :=
  fun w =>
    match m w with
    | (Returned a, w') => k a w'
    | (Threw e, w') => (Threw e, w')
    end.

Notation "'let*' x ':=' m 'in' k" := (bind m (fun x => k))
  (at level 10, x name, m at level 100, k at level 200, only parsing).

Definition modify (f : World -> World) : M unit := fun w => (Returned tt, f w).

Definition gets {A} (f : World -> A) : M A := fun w => (Returned (f w), w).

(** *** Promises *)

(** A promise settles once: settling one that is no longer pending does
    nothing. *)
Definition settle (p : PromiseRef) (s : PromiseState) (w : World) : World :=
  match promises w !! p with
  | Some Pending => set_promises (<[p := s]> (promises w)) w
  | _ => w
  end.

(** Modelled from the spec: the promise library ([../../promise]) is not
    part of the sources at hand. The specification speaks of a future
    that is resolved with a value or rejected with an error. The rest is
    the standard constructor, which the library follows:
    [new Promise(executor)] creates a pending promise and runs the executor
    at once, handing it the [resolve] of the new promise; an exception that
    leaves the executor is caught by the constructor and rejects the
    promise; one thrown later, by a callback the executor registered, is
    not. *)
Definition new_Promise (executor : PromiseRef -> M unit) : M PromiseRef :=
  fun w =>
    let p := length (promises w) in
    match executor p (set_promises (promises w ++ [Pending]) w) with
    | (Returned _, w') => (Returned p, w')
    | (Threw e, w') => (Returned p, settle p (Rejected e) w')
    end.

(** [resolve(v)] *)
Definition resolve_with (p : PromiseRef) (v : Value) : M unit :=
  modify (settle p (Fulfilled v)).

(** Modelled from the spec: [Promise.resolve()] of the same library, a
    future that is fulfilled from the start, here with [undefined]. *)
Definition Promise_resolve : M PromiseRef :=
  fun w =>
    (Returned (length (promises w)),
     set_promises (promises w ++ [Fulfilled (VJs JUndefined)]) w).

(** *** Handlers and the transport *)

(** The callback that [connect] gives to the probe:
    [err => { if (err) { switch (err.code) ... throw ... } else { resolve(connection); } }] *)
Definition probe_callback (connection : Connection) (resolve : PromiseRef)
    (err : JsVal) : M unit :=
  if truthy err then throw (Typed (classify err))
  else resolve_with resolve (VConnection connection).

(** [handler(err, data)] *)
Definition invoke (h : Handler) (err data : JsVal) : M unit :=
  match h with
  | ProbeCallback connection resolve => probe_callback connection resolve err
  | CallerHandler name =>
      modify (fun w =>
        set_invocations
          (invocations w ++ [{| callee := name; err_arg := err; data_arg := data |}]) w)
  end.

(** [rds.executeSql(params, handler)]: the client receives the call; a
    client that answers at once calls the handler before it returns, and
    what the handler throws then passes through [executeSql]. *)
Definition executeSql (rds : RdsClient) (p : Params.t) (h : Handler) : M unit :=
  let* _ := modify (fun w =>
              set_calls (calls w ++ [{| client := rds; params := p; handler := h |}]) w) in
  match immediate rds p with
  | Some (err, data) => invoke h err data
  | None => ret tt
  end.

(** The event loop runs a task on a stack of its own: nothing is below it
    to catch what the task throws. *)
Definition run_task (task : M unit) (w : World) : World :=
  match task w with
  | (Returned _, w') => w'
  | (Threw e, w') => set_uncaught (uncaught w' ++ [e]) w'
  end.

(** The transport completes its [i]-th call later, from the event loop, with
    [(err, data)]. *)
Definition complete (i : nat) (err data : JsVal) (w : World) : World :=
  match calls w !! i with
  | Some c => run_task (invoke (handler c) err data) w
  | None => w
  end.

(** ** The manager *)

Record SequelizeConfig : Type := {
  port : JsVal
}.

(** The engine object the manager is constructed with. *)
Record Sequelize : Type := {
  config : SequelizeConfig;
  options : JsVal
}.

Record ConnectionManager : Type := {
  dialect : JsVal;
  sequelize : Sequelize;
  lib : Lib
}.

(** [_refreshTypeParser(dataType) { parserStore.refresh(dataType); }] *)
Definition _refreshTypeParser (dataType : DataType) : M unit :=
  modify (fun w => set_parsers (parserStore.refresh dataType (parsers w)) w).

(** [_clearTypeParser() { parserStore.clear(); }] *)
Definition _clearTypeParser : M unit :=
  modify (fun w => set_parsers (parserStore.clear (parsers w)) w).

(** Modelled from the spec: [refreshTypeParser] belongs to the base class
    ([../abstract/connection-manager]), which is not part of the sources at
    hand. The specification has the construction install the registry
    entries of the dialect's built-in types, which the base class does
    through the [_refreshTypeParser] hook, one data type after the other. *)
Fixpoint refreshTypeParser (dataTypes : list DataType) : M unit :=
  match dataTypes with
  | [] => ret tt
  | dataType :: rest =>
      let* _ := _refreshTypeParser dataType in
      refreshTypeParser rest
  end.

(** The store after a list of data types has been passed to it in turn. *)
Definition install (store : gmap string DecodeFn) (dataTypes : list DataType)
    : gmap string DecodeFn :=
  foldl (fun st dataType => parserStore.refresh dataType st) store dataTypes.

Section Construction.

(** The table [require('../../data-types').auroraSls]. *)
Variable DataTypes : list DataType.

(** [this._loadDialectModule(name)], the base class's [require] of the
    transport module. *)
Variable _loadDialectModule : string -> Lib.

(** [[
  constructor(dialect, sequelize) {
    sequelize.config.port = sequelize.config.port || 3306;
    super(dialect, sequelize);
    this.lib = this._loadDialectModule('aws-sdk');
    this.refreshTypeParser(DataTypes);
  }
]]
    The assignment to [sequelize.config.port] changes the engine object in
    place; the manager keeps that object, so it is read back through
    [sequelize] of the result. *)
Definition constructor (dialect : JsVal) (sequelize : Sequelize)
    : M ConnectionManager :=
  let sequelize :=
    {| config := {| port := js_or (port (config sequelize)) (JNum 3306) |};
       options := options sequelize |} in
  let this :=
    {| dialect := dialect; sequelize := sequelize;
       lib := _loadDialectModule "aws-sdk" |} in
  let* _ := refreshTypeParser DataTypes in
  ret this.

End Construction.

(** The receiver of a call. [_typecast] is a static method, so [this] is
    whatever the call site supplies: [undefined] for a detached call, or an
    object, of which only the [sequelize] property is read ([None] when
    it is [undefined] or [null], as on the class itself). *)
Inductive Receiver : Type :=
| ThisUndefined
| ThisObject (sequelize_prop : option Sequelize).

(** [ConnectionManager._typecast.bind(manager)] *)
Definition bound_to (manager : ConnectionManager) : Receiver :=
  ThisObject (Some (sequelize manager)).

(** [this.sequelize.options] *)
Definition this_sequelize_options (this : Receiver) : M JsVal :=
  match this with
  | ThisUndefined => throw (TypeError "sequelize")
  | ThisObject None => throw (TypeError "options")
  | ThisObject (Some s) => ret (options s)
  end.

(** [[
  static _typecast(field, next) {
    if (parserStore.get(field.type)) {
      return parserStore.get(field.type)(field, this.sequelize.options, next);
    }
    return next();
  }
]] *)
Definition _typecast (this : Receiver) (field : FieldMeta) (next : Next)
    : M JsVal :=
  let* registered := gets (fun w => parserStore.get (type field) (parsers w)) in
  match registered with
  | Some _ =>
      let* callee := gets (fun w => parserStore.get (type field) (parsers w)) in
      let* opts := this_sequelize_options this in
      match callee with
      | Some f => fun w => (f field opts next, w)
      | None => throw (TypeError "call")
      end
  | None => fun w => (next tt, w)
  end.

(** The closure [query] called: [query({ sql }, handler)]. *)
Definition call_query (q : QueryFn) (request : Request) (h : Handler) : M unit :=
  match q with
  | QueryClosure rds dialectOptions =>
      executeSql rds
        {| Params.awsSecretStoreArn := awsSecretStoreArn dialectOptions;
           Params.dbClusterOrInstanceArn := dbClusterOrInstanceArn dialectOptions;
           Params.sqlStatements := sql request;
           Params.database := database dialectOptions;
           Params.schema := schema dialectOptions |}
        h
  end.

(** The object literal of [query] as the client reads it, key by key:
    [{ awsSecretStoreArn, dbClusterOrInstanceArn, sqlStatements, database,
    schema }]. *)
Definition params_object (p : Params.t) : JsVal :=
  JObj [ ("awsSecretStoreArn", Params.awsSecretStoreArn p);
         ("dbClusterOrInstanceArn", Params.dbClusterOrInstanceArn p);
         ("sqlStatements", Params.sqlStatements p);
         ("database", Params.database p);
         ("schema", Params.schema p) ].

(** The first three statements of [connect]: the client, the closure and
    [const connection = { query, execute: query }]. *)
Definition connection_of (this : ConnectionManager) (config : Config) : Connection :=
  let dialectOptions := dialectOptions config in
  let rds := RDSDataService (lib this) (awsConfig dialectOptions) in
  let q := QueryClosure rds dialectOptions in
  {| query := q; execute := q |}.

Definition probe : Request := {| sql := JStr "SELECT VERSION() as `version`" |}.

(** [[
  connect(config) {
    ...
    return new Promise(resolve => {
      connection.query({ sql: 'SELECT VERSION() as `version`' }, err => { ... });
    });
  }
]] *)
Definition connect (this : ConnectionManager) (config : Config) : M PromiseRef :=
  let connection := connection_of this config in
  new_Promise (fun resolve =>
    call_query (query connection) probe (ProbeCallback connection resolve)).

(** [disconnect() { return Promise.resolve(); }] *)
Definition disconnect (connection : Value) : M PromiseRef :=
  Promise_resolve.

(** [validate(connection) { return connection; }] *)
Definition validate (connection : Value) : M Value :=
  ret connection.

(** A world in which nothing has happened yet. *)
Definition idle : World :=
  {| calls := []; promises := []; invocations := []; uncaught := [];
     parsers := ∅ |}.

(** *** Names for the worlds [connect] goes through *)

(** The client that [connect] creates for a configuration. *)
Definition client_of (this : ConnectionManager) (config : Config) : RdsClient :=
  RDSDataService (lib this) (awsConfig (dialectOptions config)).

(** The parameters of the probe. *)
Definition probe_params (config : Config) : Params.t :=
  {| Params.awsSecretStoreArn := awsSecretStoreArn (dialectOptions config);
     Params.dbClusterOrInstanceArn := dbClusterOrInstanceArn (dialectOptions config);
     Params.sqlStatements := JStr "SELECT VERSION() as `version`";
     Params.database := database (dialectOptions config);
     Params.schema := schema (dialectOptions config) |}.

(** The probe as the transport receives it, from a [connect] that started
    in the world [w]. *)
Definition probe_call (this : ConnectionManager) (config : Config) (w : World) : Call :=
  {| client := client_of this config;
     params := probe_params config;
     handler := ProbeCallback (connection_of this config) (length (promises w)) |}.

(** The world once that probe has been handed to the transport and the new
    promise has reached the state [s]. *)
Definition probing (this : ConnectionManager) (config : Config) (w : World)
    (s : PromiseState) : World :=
  set_promises (promises w ++ [s])
    (set_calls (calls w ++ [probe_call this config w]) w).

(** *** Runs *)

(** One thing happening: a method of the manager is called, a query is
    made through some closure, or the transport completes one of its
    calls. When the call throws, the world it leaves behind is the one the
    run continues in. *)
Inductive Step : World -> World -> Prop :=
| step_construct DataTypes load dialect engine w :
    Step w (constructor DataTypes load dialect engine w).2
| step_connect this config w :
    Step w (connect this config w).2
| step_disconnect connection w :
    Step w (disconnect connection w).2
| step_validate connection w :
    Step w (validate connection w).2
| step_query q request h w :
    Step w (call_query q request h w).2
| step_typecast this field next w :
    Step w (_typecast this field next w).2
| step_refresh dataType w :
    Step w (_refreshTypeParser dataType w).2
| step_clear w :
    Step w (_clearTypeParser w).2
| step_complete i err data w :
    Step w (complete i err data w).

(** [w'] continues [w]: the three logs have only grown at their end, no
    promise has disappeared, and the promises that were settled in [w] are
    in the same state. *)
Definition continues (w w' : World) : Prop :=
  calls w `prefix_of` calls w' /\
  invocations w `prefix_of` invocations w' /\
  uncaught w `prefix_of` uncaught w' /\
  length (promises w) <= length (promises w') /\
  forall p s, promises w !! p = Some s -> s <> Pending ->
              promises w' !! p = Some s.

(** The last function that a table holds for a type. *)
Fixpoint last_parse (T : string) (dataTypes : list DataType) : option DecodeFn :=
  match dataTypes with
  | [] => None
  | dataType :: rest =>
      match last_parse T rest with
      | Some f => Some f
      | None => if String.eqb (typeId dataType) T then Some (parse dataType) else None
      end
  end.

(** *** Sample values *)

Module Sample.

(** A client that answers later, as the AWS client does. *)
Definition deferred_lib : Lib :=
  {| RDSDataService := fun awsConfig =>
       {| client_config := awsConfig; immediate := fun _ => None |} |}.

(** A client that calls back before [executeSql] returns, with [err]. *)
Definition immediate_lib (err : JsVal) : Lib :=
  {| RDSDataService := fun awsConfig =>
       {| client_config := awsConfig;
          immediate := fun _ => Some (err, JUndefined) |} |}.

Definition engine : Sequelize :=
  {| config := {| port := JUndefined |};
     options := JObj [("timezone", JStr "+00:00")] |}.

Definition manager (l : Lib) : ConnectionManager :=
  {| dialect := JStr "auroraSls"; sequelize := engine; lib := l |}.

Definition db1 : Config :=
  {| dialectOptions :=
       {| awsConfig := JObj [];
          awsSecretStoreArn := JStr "secret1";
          dbClusterOrInstanceArn := JStr "arn1";
          database := JStr "db1";
          schema := JUndefined |} |}.

Definition refused : JsVal := JObj [("code", JStr "ECONNREFUSED")].

Definition upper : DecodeFn :=
  fun field opts next => Returned (JObj [("decoded", raw field); ("options", opts)]).

Definition datetime : FieldMeta := {| type := "DATETIME"; raw := JStr "2019-01-01" |}.

Definition passthrough : Next := fun _ => Returned (JStr "2019-01-01").

End Sample.

(** * Properties *)

(** ** JavaScript values and the classification *)

Lemma is_string_spec label v : is_string label v = true <-> v = JStr label.
Proof.
  destruct v; simpl; try (split; [discriminate | intros [=]]).
  rewrite String.eqb_eq. split; [congruence | intros [=]; done].
Qed.

Lemma is_string_refl label : is_string label (JStr label) = true.
Proof. by apply is_string_spec. Qed.

Lemma is_string_other label v : v <> JStr label -> is_string label v = false.
Proof.
  intros Hne. destruct (is_string label v) eqn:E; [|done].
  by apply is_string_spec in E.
Qed.

Lemma classify_parent err : parent_of (classify err) = err.
Proof. unfold classify. repeat case_match; reflexivity. Qed.

(** ** Promises *)

Lemma lookup_last {A} (l : list A) (x : A) : (l ++ [x]) !! length l = Some x.
Proof. by apply list_lookup_middle. Qed.

Lemma settle_last ps s w :
  promises w = ps ++ [Pending] ->
  settle (length ps) s w = set_promises (ps ++ [s]) w.
Proof.
  intros Hps. unfold settle. rewrite Hps, lookup_last.
  rewrite insert_app_r_alt by lia.
  by rewrite Nat.sub_diag.
Qed.

(** ** What [connect] computes *)

Section Connect.

Variable this : ConnectionManager.
Variable config : Config.
Variable w : World.

Lemma connect_deferred :
  immediate (client_of this config) (probe_params config) = None ->
  connect this config w
  = (Returned (length (promises w)), probing this config w Pending).
Proof.
  intros Hlater. unfold connect, new_Promise, call_query, executeSql, bind, modify.
  simpl. fold (client_of this config) (probe_params config).
  by rewrite Hlater.
Qed.

Lemma connect_immediate_ok err data :
  immediate (client_of this config) (probe_params config) = Some (err, data) ->
  truthy err = false ->
  connect this config w
  = (Returned (length (promises w)),
     probing this config w (Fulfilled (VConnection (connection_of this config)))).
Proof.
  intros Hnow Hok. unfold connect, new_Promise, call_query, executeSql, bind, modify.
  simpl. fold (client_of this config) (probe_params config).
  rewrite Hnow. simpl.
  unfold probe_callback. rewrite Hok. unfold resolve_with, modify.
  f_equal. by rewrite (settle_last (promises w)).
Qed.

Lemma connect_immediate_error err data :
  immediate (client_of this config) (probe_params config) = Some (err, data) ->
  truthy err = true ->
  connect this config w
  = (Returned (length (promises w)),
     probing this config w (Rejected (Typed (classify err)))).
Proof.
  intros Hnow Herr. unfold connect, new_Promise, call_query, executeSql, bind, modify.
  simpl. fold (client_of this config) (probe_params config).
  rewrite Hnow. simpl.
  unfold probe_callback. rewrite Herr. unfold throw.
  f_equal. by rewrite (settle_last (promises w)).
Qed.

Lemma complete_probe_ok err data :
  truthy err = false ->
  complete (length (calls w)) err data (probing this config w Pending)
  = probing this config w (Fulfilled (VConnection (connection_of this config))).
Proof.
  intros Hok. unfold complete. simpl. rewrite lookup_last. simpl.
  unfold run_task, probe_callback. rewrite Hok. unfold resolve_with, modify.
  by rewrite (settle_last (promises w)).
Qed.

Lemma complete_probe_error err data :
  truthy err = true ->
  complete (length (calls w)) err data (probing this config w Pending)
  = set_uncaught (uncaught w ++ [Typed (classify err)])
      (probing this config w Pending).
Proof.
  intros Herr. unfold complete. simpl. rewrite lookup_last. simpl.
  unfold run_task, probe_callback. by rewrite Herr.
Qed.

(** [connect] itself never throws: it returns its promise whatever the
    transport does. *)
Lemma connect_returns :
  exists s,
    connect this config w
    = (Returned (length (promises w)), probing this config w s).
Proof.
  destruct (immediate (client_of this config) (probe_params config))
    as [[err data]|] eqn:Hreply.
  - destruct (truthy err) eqn:Herr; eexists.
    + by eapply connect_immediate_error.
    + by eapply connect_immediate_ok.
  - eexists. by apply connect_deferred.
Qed.

End Connect.

(** ** The probe of [connect] *)

(** C1, evaluated where the code departs from it. The client answers from
    the event loop, and the probe fails with [{ code: 'ECONNREFUSED' }].
    [connect] has returned its promise by then; the callback throws the
    [ConnectionRefusedError] on the event loop's stack, where it is an
    uncaught fault, and the promise is left pending: it is never
    rejected. *)
Example connect_deferred_refusal_escapes :
  let this := Sample.manager Sample.deferred_lib in
  let returned := connect this Sample.db1 idle in
  let later := complete 0 Sample.refused JUndefined returned.2 in
  returned.1 = Returned 0 /\
  promises returned.2 !! 0 = Some Pending /\
  uncaught returned.2 = [] /\
  promises later !! 0 = Some Pending /\
  uncaught later = [Typed (ConnectionRefusedError Sample.refused)].
Proof. repeat split; reflexivity. Qed.

(** The same refusal from a client that calls back before [executeSql]
    returns: the [throw] leaves the executor, and the constructor turns it
    into a rejection. *)
Example connect_immediate_refusal_rejects :
  let this := Sample.manager (Sample.immediate_lib Sample.refused) in
  let returned := connect this Sample.db1 idle in
  returned.1 = Returned 0 /\
  promises returned.2 !! 0
  = Some (Rejected (Typed (ConnectionRefusedError Sample.refused))) /\
  uncaught returned.2 = [].
Proof. repeat split; reflexivity. Qed.

(** C2. A raw error [err] reported by the probe makes [connect] produce the
    typed error [classify err], whether the client calls back before
    [executeSql] returns or later. That error keeps [err] as its parent, and
    which constructor built it is read off [err.code] alone: each of the five
    listed codes has its own, every other value of [err.code] gives the
    generic [ConnectionError], and two errors with the same [code] get the
    same kind. *)
Theorem probe_error_classified_by_code this config w err data
    (Herr : truthy err = true) :
  let code := get_prop "code" err in
  let e := classify err in
  (immediate (client_of this config) (probe_params config) = Some (err, data) ->
     connect this config w
     = (Returned (length (promises w)), probing this config w (Rejected (Typed e)))) /\
  (immediate (client_of this config) (probe_params config) = None ->
     connect this config w
     = (Returned (length (promises w)), probing this config w Pending) /\
     uncaught (complete (length (calls w)) err data (probing this config w Pending))
     = uncaught w ++ [Typed e]) /\
  parent_of e = err /\
  (code = JStr "ECONNREFUSED" -> e = ConnectionRefusedError err) /\
  (code = JStr "ER_ACCESS_DENIED_ERROR" -> e = AccessDeniedError err) /\
  (code = JStr "ENOTFOUND" -> e = HostNotFoundError err) /\
  (code = JStr "EHOSTUNREACH" -> e = HostNotReachableError err) /\
  (code = JStr "EINVAL" -> e = InvalidConnectionError err) /\
  (code <> JStr "ECONNREFUSED" -> code <> JStr "ER_ACCESS_DENIED_ERROR" ->
   code <> JStr "ENOTFOUND" -> code <> JStr "EHOSTUNREACH" ->
   code <> JStr "EINVAL" -> e = ConnectionError err) /\
  (forall err', get_prop "code" err' = code ->
     kind_of (classify err') = kind_of e).
Proof.
  intros code e. split_and!.
  - intros Hnow. by eapply connect_immediate_error.
  - intros Hlater. split; [by apply connect_deferred |].
    by rewrite complete_probe_error.
  - apply classify_parent.
  - intros Hc. unfold e, classify. fold code. by rewrite Hc.
  - intros Hc. unfold e, classify. fold code. by rewrite Hc.
  - intros Hc. unfold e, classify. fold code. by rewrite Hc.
  - intros Hc. unfold e, classify. fold code. by rewrite Hc.
  - intros Hc. unfold e, classify. fold code. by rewrite Hc.
  - intros H1 H2 H3 H4 H5. unfold e, classify. fold code.
    by rewrite !is_string_other.
  - intros err' Hcode. unfold e, classify. rewrite Hcode. fold code.
    by repeat case_match.
Qed.

Lemma probe_error_classified_by_code_witness :
  let this := Sample.manager Sample.deferred_lib in
  let err := JObj [("code", JStr "ENOTFOUND")] in
  truthy err = true /\
  uncaught (complete 0 err JUndefined (probing this Sample.db1 idle Pending))
  = [Typed (HostNotFoundError err)].
Proof.
  intros this err. split; [reflexivity |].
  destruct (probe_error_classified_by_code this Sample.db1 idle err JUndefined
              eq_refl) as (_ & Hlater & _ & _ & _ & Hcode & _).
  destruct (Hlater eq_refl) as [_ Hfault].
  rewrite (Hcode eq_refl) in Hfault. exact Hfault.
Defined.

(** C4. [connect] builds one connection, whose closure holds the client
    made from [dialectOptions.awsConfig] and [dialectOptions] itself, and
    hands the transport exactly one more call: the [SELECT VERSION()] probe,
    issued through that connection. When the probe's callback is called with
    no error, the promise [connect] returned is fulfilled with that very
    connection, at once for a client that calls back before [executeSql]
    returns, on completion for one that answers later; the completion adds
    no call. *)
Theorem connect_probes_once_and_resolves this config w err data
    (Hok : truthy err = false) :
  let connection := connection_of this config in
  let rds := RDSDataService (lib this) (awsConfig (dialectOptions config)) in
  let p := length (promises w) in
  let sent :=
    {| client := rds;
       params :=
         {| Params.awsSecretStoreArn := awsSecretStoreArn (dialectOptions config);
            Params.dbClusterOrInstanceArn := dbClusterOrInstanceArn (dialectOptions config);
            Params.sqlStatements := JStr "SELECT VERSION() as `version`";
            Params.database := database (dialectOptions config);
            Params.schema := schema (dialectOptions config) |};
       handler := ProbeCallback connection p |} in
  query connection = QueryClosure rds (dialectOptions config) /\
  execute connection = QueryClosure rds (dialectOptions config) /\
  (connect this config w).1 = Returned p /\
  calls (connect this config w).2 = calls w ++ [sent] /\
  (immediate rds (params sent) = Some (err, data) ->
     promises (connect this config w).2 !! p
     = Some (Fulfilled (VConnection connection))) /\
  (immediate rds (params sent) = None ->
     promises (connect this config w).2 !! p = Some Pending /\
     promises (complete (length (calls w)) err data (connect this config w).2) !! p
     = Some (Fulfilled (VConnection connection)) /\
     calls (complete (length (calls w)) err data (connect this config w).2)
     = calls w ++ [sent]).
Proof.
  intros connection rds p sent. split_and!; try reflexivity.
  - destruct (connect_returns this config w) as [s ->]. reflexivity.
  - destruct (connect_returns this config w) as [s ->]. reflexivity.
  - intros Hnow. rewrite (connect_immediate_ok this config w err data Hnow Hok).
    simpl. apply lookup_last.
  - intros Hlater. rewrite (connect_deferred this config w Hlater). simpl.
    split; [apply lookup_last |].
    rewrite (complete_probe_ok this config w err data Hok). simpl.
    split; [apply lookup_last | reflexivity].
Qed.

Lemma connect_probes_once_and_resolves_witness :
  let this := Sample.manager Sample.deferred_lib in
  let returned := connect this Sample.db1 idle in
  truthy JNull = false /\
  length (calls returned.2) = 1 /\
  promises (complete 0 JNull (JStr "8.0") returned.2) !! 0
  = Some (Fulfilled (VConnection (connection_of this Sample.db1))).
Proof.
  intros this returned. split; [reflexivity |].
  destruct (connect_probes_once_and_resolves this Sample.db1 idle JNull
              (JStr "8.0") eq_refl) as (_ & _ & _ & Hcalls & _ & Hlater).
  split.
  - unfold returned. rewrite Hcalls. reflexivity.
  - exact (proj1 (proj2 (Hlater eq_refl))).
Defined.

(** ** The connection *)

Lemma calls_settle p s w : calls (settle p s w) = calls w.
Proof. unfold settle. by repeat case_match. Qed.

Lemma invoke_keeps_calls h err data w : calls (invoke h err data w).2 = calls w.
Proof.
  destruct h as [connection resolve | name]; simpl; [|done].
  unfold probe_callback. destruct (truthy err); simpl; [done |].
  apply calls_settle.
Qed.

(** C3, as stated, fails on the name of one key: the object that the
    transport receives has no [sql]; the statement travels under
    [sqlStatements]. *)
Lemma query_sends_no_sql_key :
  let this := Sample.manager Sample.deferred_lib in
  let connection := connection_of this Sample.db1 in
  let asked := call_query (query connection) {| sql := JStr "SELECT 1" |}
                 (CallerHandler 7) idle in
  exists c,
    calls asked.2 = [c] /\
    get_prop "sql" (params_object (params c)) = JUndefined /\
    get_prop "sql" (params_object (params c)) <> JStr "SELECT 1" /\
    get_prop "sqlStatements" (params_object (params c)) = JStr "SELECT 1".
Proof.
  eexists. split; [reflexivity |]. simpl.
  split; [reflexivity |]. split; [discriminate | reflexivity].
Qed.

(** C3, amended. On a connection built by [connect], [execute] is the
    closure that [query] is. Called with [{ sql: s }] and a handler, it
    hands the transport exactly one call, whose object has the statement [s]
    under [sqlStatements] and, under their own names, the four fields of
    the captured [dialectOptions]. The handler travels with the call as it
    is: what the transport reports, at once or later, error or result, is
    what the caller's handler is called with, once, and neither a fault nor
    a promise nor a further call comes of it. *)
Theorem query_execute_forward this config s name err data w :
  let connection := connection_of this config in
  let rds := RDSDataService (lib this) (awsConfig (dialectOptions config)) in
  let sent :=
    {| Params.awsSecretStoreArn := awsSecretStoreArn (dialectOptions config);
       Params.dbClusterOrInstanceArn := dbClusterOrInstanceArn (dialectOptions config);
       Params.sqlStatements := s;
       Params.database := database (dialectOptions config);
       Params.schema := schema (dialectOptions config) |} in
  let asked h := call_query (query connection) {| sql := s |} h w in
  execute connection = query connection /\
  (forall h,
     calls (asked h).2
     = calls w ++ [{| client := rds; params := sent; handler := h |}]) /\
  params_object sent
  = JObj [ ("awsSecretStoreArn", awsSecretStoreArn (dialectOptions config));
           ("dbClusterOrInstanceArn", dbClusterOrInstanceArn (dialectOptions config));
           ("sqlStatements", s);
           ("database", database (dialectOptions config));
           ("schema", schema (dialectOptions config)) ] /\
  match immediate rds sent with
  | Some (e, d) =>
      let answered := asked (CallerHandler name) in
      answered.1 = Returned tt /\
      invocations answered.2
      = invocations w ++ [{| callee := name; err_arg := e; data_arg := d |}] /\
      uncaught answered.2 = uncaught w /\
      promises answered.2 = promises w
  | None =>
      let waiting := asked (CallerHandler name) in
      let completed := complete (length (calls w)) err data waiting.2 in
      waiting.1 = Returned tt /\
      invocations waiting.2 = invocations w /\
      invocations completed
      = invocations w ++ [{| callee := name; err_arg := err; data_arg := data |}] /\
      calls completed = calls waiting.2 /\
      uncaught completed = uncaught w /\
      promises completed = promises w
  end.
Proof.
  intros connection rds sent asked. split_and!.
  - reflexivity.
  - intros h. unfold asked, call_query, executeSql, bind, modify. simpl.
    fold rds sent. destruct (immediate rds sent) as [[e d]|]; [|done].
    by rewrite invoke_keeps_calls.
  - reflexivity.
  - unfold asked, call_query, executeSql, bind, modify. simpl. fold rds sent.
    destruct (immediate rds sent) as [[e d]|]; simpl; [done |].
    unfold complete. simpl. rewrite lookup_last. simpl. done.
Qed.

(** The scenario of the specification: a query for ['SELECT 1'] on a
    connection made for [db1]. *)
Example query_select_1 :
  let this := Sample.manager Sample.deferred_lib in
  let connection := connection_of this Sample.db1 in
  let asked := call_query (query connection) {| sql := JStr "SELECT 1" |}
                 (CallerHandler 7) idle in
  params <$> calls asked.2
  = [ {| Params.awsSecretStoreArn := JStr "secret1";
         Params.dbClusterOrInstanceArn := JStr "arn1";
         Params.sqlStatements := JStr "SELECT 1";
         Params.database := JStr "db1";
         Params.schema := JUndefined |} ] /\
  invocations (complete 0 JNull (JStr "rows") asked.2)
  = [ {| callee := 7; err_arg := JNull; data_arg := JStr "rows" |} ].
Proof. split; reflexivity. Qed.

(** ** [disconnect] and [validate] *)

(** C5. Whatever it is given, [disconnect] returns a promise that is
    fulfilled from the start; it does not throw, the transport receives no
    call, and nothing else in the world changes. *)
Theorem disconnect_resolves (connection : Value) (w : World) :
  let p := length (promises w) in
  let after := (disconnect connection w).2 in
  (disconnect connection w).1 = Returned p /\
  promises after !! p = Some (Fulfilled (VJs JUndefined)) /\
  calls after = calls w /\
  uncaught after = uncaught w /\
  invocations after = invocations w /\
  parsers after = parsers w.
Proof.
  intros p after. split_and!; try reflexivity.
  unfold after, disconnect, Promise_resolve. simpl. apply lookup_last.
Qed.

(** C6. [validate] returns its argument, and leaves the world, the
    transport's calls among it, as it found it. *)
Theorem validate_identity (c : Value) (w : World) :
  validate c w = (Returned c, w).
Proof. reflexivity. Qed.

(** ** The type parsers *)

Lemma set_parsers_id w : set_parsers (parsers w) w = w.
Proof. by destruct w. Qed.

Lemma refreshTypeParser_installs dataTypes w :
  refreshTypeParser dataTypes w
  = (Returned tt, set_parsers (install (parsers w) dataTypes) w).
Proof.
  unfold install.
  revert w. induction dataTypes as [|dataType rest IH]; intros w; simpl.
  - by rewrite set_parsers_id.
  - unfold bind, _refreshTypeParser, modify. by rewrite IH.
Qed.

Lemma install_lookup_other (T : string) dataTypes (store : gmap string DecodeFn) :
  T ∉ typeId <$> dataTypes ->
  install store dataTypes !! T = store !! T.
Proof.
  unfold install.
  revert store. induction dataTypes as [|dataType rest IH]; intros store Hout.
  - done.
  - rewrite fmap_cons in Hout. apply not_elem_of_cons in Hout as [Hne Hrest].
    simpl. rewrite IH by done.
    unfold parserStore.refresh. by rewrite lookup_insert_ne.
Qed.

Lemma install_lookup_last front dataType back (store : gmap string DecodeFn) :
  typeId dataType ∉ typeId <$> back ->
  install store (front ++ dataType :: back) !! typeId dataType
  = Some (parse dataType).
Proof.
  intros Hlast. unfold install. rewrite foldl_app. simpl.
  fold (install (parserStore.refresh dataType (foldl (fun st d => parserStore.refresh d st) store front)) back).
  rewrite install_lookup_other by done.
  unfold parserStore.refresh. apply lookup_insert_eq.
Qed.

(** C9. After [_refreshTypeParser] has passed the store a type [T] with
    its function [f], the store answers [f] for [T]; after
    [_clearTypeParser] it has no function left, for any type. *)
Theorem refresh_then_clear (T : string) (f : DecodeFn) (w : World) :
  let refreshed := _refreshTypeParser {| typeId := T; parse := f |} w in
  let cleared := _clearTypeParser refreshed.2 in
  refreshed.1 = Returned tt /\
  parserStore.get T (parsers refreshed.2) = Some f /\
  cleared.1 = Returned tt /\
  (forall T', parserStore.get T' (parsers cleared.2) = None).
Proof.
  intros refreshed cleared. split_and!.
  - reflexivity.
  - unfold parserStore.get. simpl. unfold parserStore.refresh. simpl.
    apply lookup_insert_eq.
  - reflexivity.
  - intros T'. unfold parserStore.get. simpl. apply lookup_empty.
Qed.

(** C7, as stated, fails for a port that is set to [0]: the construction
    replaces it by 3306. *)
Lemma constructor_replaces_port_zero :
  let engine := {| config := {| port := JNum 0 |}; options := JUndefined |} in
  let built := constructor [] (fun _ => Sample.deferred_lib) JNull engine idle in
  port (config engine) <> JUndefined /\
  exists this,
    built.1 = Returned this /\
    port (config (sequelize this)) = JNum 3306 /\
    port (config (sequelize this)) <> port (config engine).
Proof.
  split; [discriminate |].
  eexists. split; [reflexivity |]. split; [reflexivity | discriminate].
Qed.

(** C7, amended. The construction returns a manager whose engine
    configuration has port 3306 when the port was unset or otherwise falsy,
    and the port it had when that was truthy; the manager holds the
    ['aws-sdk'] module; every data type of the dialect's table is in the
    store with its own function, the last entry of a type being the one
    that counts; the transport receives no call, and no promise, fault or
    handler call comes of it. *)
Theorem constructor_defaults_port_and_installs
    (DataTypes : list DataType) (load : string -> Lib)
    (dialect : JsVal) (engine : Sequelize) (w : World) :
  let built := constructor DataTypes load dialect engine w in
  exists this,
    built.1 = Returned this /\
    (port (config engine) = JUndefined ->
       port (config (sequelize this)) = JNum 3306) /\
    (truthy (port (config engine)) = false ->
       port (config (sequelize this)) = JNum 3306) /\
    (truthy (port (config engine)) = true ->
       port (config (sequelize this)) = port (config engine)) /\
    lib this = load "aws-sdk" /\
    (forall front dataType back,
       DataTypes = front ++ dataType :: back ->
       typeId dataType ∉ typeId <$> back ->
       parserStore.get (typeId dataType) (parsers built.2)
       = Some (parse dataType)) /\
    (forall T, T ∉ typeId <$> DataTypes ->
       parserStore.get T (parsers built.2) = parserStore.get T (parsers w)) /\
    calls built.2 = calls w /\
    promises built.2 = promises w /\
    uncaught built.2 = uncaught w /\
    invocations built.2 = invocations w.
Proof.
  intros built.
  assert (Hbuilt : exists this,
            built = (Returned this, set_parsers (install (parsers w) DataTypes) w)
            /\ port (config (sequelize this))
               = js_or (port (config engine)) (JNum 3306)
            /\ lib this = load "aws-sdk").
  { unfold built, constructor, bind.
    rewrite refreshTypeParser_installs. eexists. by split_and!. }
  destruct Hbuilt as (this & -> & Hport & Hlib).
  exists this. simpl. rewrite Hport. unfold js_or. split_and!; try done.
  - by intros ->.
  - by intros ->.
  - by intros ->.
  - intros front dataType back -> Hlast. by apply install_lookup_last.
  - intros T Hout. by apply install_lookup_other.
Qed.

Lemma constructor_defaults_port_and_installs_witness :
  let DataTypes := [ {| typeId := "DATETIME"; parse := Sample.upper |} ] in
  let built :=
    constructor DataTypes (fun _ => Sample.deferred_lib) JNull Sample.engine idle in
  exists this,
    built.1 = Returned this /\
    port (config (sequelize this)) = JNum 3306 /\
    parserStore.get "DATETIME" (parsers built.2) = Some Sample.upper /\
    calls built.2 = [].
Proof.
  intros DataTypes built.
  destruct (constructor_defaults_port_and_installs DataTypes
              (fun _ => Sample.deferred_lib) JNull Sample.engine idle)
    as (this & Hret & Hunset & _ & _ & _ & Hlast & _ & Hcalls & _).
  exists this. split_and!.
  - exact Hret.
  - exact (Hunset eq_refl).
  - apply (Hlast [] {| typeId := "DATETIME"; parse := Sample.upper |} []).
    + reflexivity.
    + simpl. apply not_elem_of_nil.
  - exact Hcalls.
Defined.

(** ** [_typecast] *)

(** C8, as stated, fails where the method is called as the static method
    it is, on the class, which has no [sequelize]: with a function
    registered for the field's type, the call throws a [TypeError], and
    what it gives is not that function's result for any context options. *)
Lemma typecast_static_call_throws :
  let registered := set_parsers {[ "DATETIME" := Sample.upper ]} idle in
  let called :=
    _typecast (ThisObject None) Sample.datetime Sample.passthrough registered in
  parserStore.get (type Sample.datetime) (parsers registered)
  = Some Sample.upper /\
  called = (Threw (TypeError "options"), registered) /\
  forall contextOptions,
    called
    <> (Sample.upper Sample.datetime contextOptions Sample.passthrough, registered).
Proof.
  split_and!; [reflexivity | reflexivity |].
  intros contextOptions. discriminate.
Qed.

(** C8, amended. For a receiver that has a [sequelize], whose options are
    the context options: when the store has a function for [field.type],
    [_typecast] calls it with the field, the context options and [next],
    and returns what it returns. When the store has none, [_typecast]
    returns what [next()] returns, whatever the receiver. The world is left
    as it was. *)
Theorem typecast_dispatch (this : Receiver) (field : FieldMeta)
    (contextOptions : JsVal) (next : Next) (w : World) :
  (forall f engine,
     parserStore.get (type field) (parsers w) = Some f ->
     this = ThisObject (Some engine) ->
     options engine = contextOptions ->
     _typecast this field next w = (f field contextOptions next, w)) /\
  (parserStore.get (type field) (parsers w) = None ->
     _typecast this field next w = (next tt, w)).
Proof.
  split.
  - intros f engine Hreg -> <-. unfold _typecast, bind, gets.
    rewrite Hreg. simpl. by rewrite Hreg.
  - intros Hnone. unfold _typecast, bind, gets. by rewrite Hnone.
Qed.

Lemma typecast_dispatch_witness :
  let this := bound_to (Sample.manager Sample.deferred_lib) in
  let registered := set_parsers {[ "DATETIME" := Sample.upper ]} idle in
  _typecast this Sample.datetime Sample.passthrough registered
  = (Returned (JObj [("decoded", JStr "2019-01-01");
                     ("options", JObj [("timezone", JStr "+00:00")])]),
     registered) /\
  _typecast this Sample.datetime Sample.passthrough idle
  = (Returned (JStr "2019-01-01"), idle).
Proof.
  intros this registered. split.
  - apply (proj1 (typecast_dispatch this Sample.datetime
                    (options Sample.engine) Sample.passthrough registered)
             Sample.upper Sample.engine); reflexivity.
  - apply (proj2 (typecast_dispatch this Sample.datetime JUndefined
                    Sample.passthrough idle)); reflexivity.
Defined.

(** C10. With a function registered for [field.type], [_typecast] reads
    [this.sequelize.options] before it calls the function. A receiver that
    has a [sequelize], such as a manager the method is bound to, gets the
    function's result; called with no receiver, or on an object without
    [sequelize] such as the class itself, the method throws a [TypeError]
    and the function is not called. *)
Theorem typecast_needs_receiver (this : Receiver) (field : FieldMeta)
    (next : Next) (f : DecodeFn) (w : World)
    (Hreg : parserStore.get (type field) (parsers w) = Some f) :
  match this with
  | ThisObject (Some engine) =>
      _typecast this field next w = (f field (options engine) next, w)
  | ThisObject None | ThisUndefined =>
      exists reading, _typecast this field next w = (Threw (TypeError reading), w)
  end /\
  (forall manager,
     _typecast (bound_to manager) field next w
     = (f field (options (sequelize manager)) next, w)).
Proof.
  split.
  - destruct this as [|[engine|]]; unfold _typecast, bind, gets; rewrite Hreg;
      simpl; rewrite ?Hreg; eauto.
  - intros manager. unfold _typecast, bind, gets. rewrite Hreg. simpl.
    by rewrite Hreg.
Qed.

Lemma typecast_needs_receiver_witness :
  let registered := set_parsers {[ "DATETIME" := Sample.upper ]} idle in
  (exists reading,
     _typecast ThisUndefined Sample.datetime Sample.passthrough registered
     = (Threw (TypeError reading), registered)) /\
  (exists reading,
     _typecast (ThisObject None) Sample.datetime Sample.passthrough registered
     = (Threw (TypeError reading), registered)).
Proof.
  intros registered. split.
  - exact (proj1 (typecast_needs_receiver ThisUndefined Sample.datetime
                    Sample.passthrough Sample.upper registered eq_refl)).
  - exact (proj1 (typecast_needs_receiver (ThisObject None) Sample.datetime
                    Sample.passthrough Sample.upper registered eq_refl)).
Defined.

(** * Further properties *)

(** ** What a run never undoes *)

Lemma continues_refl w : continues w w.
Proof. by repeat split. Qed.

Lemma continues_trans w1 w2 w3 :
  continues w1 w2 -> continues w2 w3 -> continues w1 w3.
Proof.
  intros (Hc & Hi & Hu & Hl & Hp) (Hc' & Hi' & Hu' & Hl' & Hp').
  repeat split; try (by etrans).
  intros p s Hs Hsettled. apply Hp'; [|done]. by apply Hp.
Qed.

Lemma continues_settle p s w : continues w (settle p s w).
Proof.
  unfold settle. destruct (promises w !! p) as [[| |]|] eqn:Hp;
    try apply continues_refl.
  repeat split; simpl; try done.
  - by rewrite length_insert.
  - intros q s' Hq Hsettled. destruct (decide (p = q)) as [->|Hne].
    + unfold PromiseRef in *. rewrite Hp in Hq. by simplify_eq.
    + by rewrite list_lookup_insert_ne.
Qed.

Lemma continues_invoke h err data w : continues w (invoke h err data w).2.
Proof.
  destruct h as [connection resolve | name]; simpl.
  - unfold probe_callback. destruct (truthy err); simpl.
    + apply continues_refl.
    + apply continues_settle.
  - repeat split; simpl; try done. by apply prefix_app_r.
Qed.

Lemma continues_call_query q request h w :
  continues w (call_query q request h w).2.
Proof.
  destruct q as [rds captured]. unfold call_query, executeSql, bind, modify.
  set (w1 := set_calls _ w).
  assert (Hlog : continues w w1).
  { repeat split; simpl; try done. by apply prefix_app_r. }
  destruct (immediate rds _) as [[err data]|]; [|done].
  eapply continues_trans; [exact Hlog |].
  pose proof (continues_invoke h err data w1) as Hinv.
  by destruct (invoke h err data w1) as [[]].
Qed.

Lemma continues_complete i err data w : continues w (complete i err data w).
Proof.
  unfold complete. destruct (calls w !! i) as [c|]; [|apply continues_refl].
  unfold run_task.
  pose proof (continues_invoke (handler c) err data w) as Hinv.
  destruct (invoke (handler c) err data w) as [[|e] w']; [done |].
  eapply continues_trans; [exact Hinv |].
  repeat split; simpl; try done. by apply prefix_app_r.
Qed.

Lemma continues_connect this config w : continues w (connect this config w).2.
Proof.
  destruct (connect_returns this config w) as [s ->]. simpl.
  repeat split; simpl; try done.
  - by apply prefix_app_r.
  - rewrite length_app. lia.
  - intros p s' Hp _. by apply lookup_app_l_Some.
Qed.

Lemma continues_disconnect connection w :
  continues w (disconnect connection w).2.
Proof.
  repeat split; simpl; try done.
  - rewrite length_app. lia.
  - intros p s' Hp _. by apply lookup_app_l_Some.
Qed.

Lemma typecast_keeps_world this field next w :
  (_typecast this field next w).2 = w.
Proof.
  unfold _typecast, bind, gets.
  destruct (parserStore.get (type field) (parsers w)) as [f|] eqn:Hreg; [|done].
  destruct this as [|[engine|]]; simpl; try done. by rewrite Hreg.
Qed.

Lemma continues_set_parsers store w : continues w (set_parsers store w).
Proof. by repeat split. Qed.

Lemma continues_step w w' : Step w w' -> continues w w'.
Proof.
  destruct 1.
  - unfold constructor, bind. rewrite refreshTypeParser_installs. simpl.
    apply continues_set_parsers.
  - apply continues_connect.
  - apply continues_disconnect.
  - apply continues_refl.
  - apply continues_call_query.
  - rewrite typecast_keeps_world. apply continues_refl.
  - apply continues_set_parsers.
  - apply continues_set_parsers.
  - apply continues_complete.
Qed.

(** X1. However the manager's methods, queries and transport completions
    follow one another, the record is only added to: the transport's log of
    calls, the handlers' invocations and the uncaught faults grow at their
    end, no promise disappears, and a promise that has been fulfilled or
    rejected stays as it is. *)
Theorem run_keeps_history w w' (Hrun : rtc Step w w') :
  calls w `prefix_of` calls w' /\
  invocations w `prefix_of` invocations w' /\
  uncaught w `prefix_of` uncaught w' /\
  length (promises w) <= length (promises w') /\
  (forall p s, promises w !! p = Some s -> s <> Pending ->
               promises w' !! p = Some s).
Proof.
  change (continues w w').
  induction Hrun as [w | w1 w2 w3 Hstep _ IH].
  - apply continues_refl.
  - eapply continues_trans; [by apply continues_step | exact IH].
Qed.

Lemma run_keeps_history_witness :
  let this := Sample.manager Sample.deferred_lib in
  let connected := complete 0 JNull JUndefined (connect this Sample.db1 idle).2 in
  let again := complete 0 Sample.refused JUndefined connected in
  rtc Step connected again /\
  promises again !! 0
  = Some (Fulfilled (VConnection (connection_of this Sample.db1))).
Proof.
  intros this connected again.
  assert (Hrun : rtc Step connected again).
  { apply rtc_once. apply step_complete. }
  split; [exact Hrun |].
  destruct (run_keeps_history connected again Hrun) as (_ & _ & _ & _ & Hkept).
  apply Hkept; [reflexivity | discriminate].
Defined.

(** X2. A completion that arrives from the event loop never rejects a
    promise: one that is found rejected after a completion was rejected
    before it. *)
Theorem complete_never_rejects i err data w p e :
  promises (complete i err data w) !! p = Some (Rejected e) ->
  promises w !! p = Some (Rejected e).
Proof.
  unfold complete. destruct (calls w !! i) as [c|]; [|done].
  unfold run_task. destruct (handler c) as [connection resolve | name]; simpl.
  - unfold probe_callback. destruct (truthy err); simpl; [done |].
    unfold settle. destruct (promises w !! resolve) as [[| |]|] eqn:Hp; try done.
    simpl. intros Hrej. destruct (decide (resolve = p)) as [->|Hne].
    + rewrite list_lookup_insert_eq in Hrej by (by eapply lookup_lt_Some).
      discriminate.
    + by rewrite list_lookup_insert_ne in Hrej.
  - done.
Qed.

Lemma complete_never_rejects_witness :
  let this := Sample.manager (Sample.immediate_lib Sample.refused) in
  let failed := (connect this Sample.db1 idle).2 in
  promises (complete 0 JNull JUndefined failed) !! 0
  = Some (Rejected (Typed (ConnectionRefusedError Sample.refused))) /\
  promises failed !! 0
  = Some (Rejected (Typed (ConnectionRefusedError Sample.refused))).
Proof.
  intros this failed. split; [reflexivity |].
  apply (complete_never_rejects 0 JNull JUndefined failed 0). reflexivity.
Defined.

(** ** Several probes in flight *)

Lemma settle_at front back s w :
  promises w = front ++ Pending :: back ->
  settle (length front) s w = set_promises (front ++ s :: back) w.
Proof.
  intros Hps. unfold settle. rewrite Hps.
  rewrite list_lookup_middle by done.
  rewrite insert_app_r_alt by lia.
  by rewrite Nat.sub_diag.
Qed.

(** The completion of a probe whose promise is still pending. *)
Lemma complete_pending_probe i err data w c connection p front back :
  calls w !! i = Some c ->
  handler c = ProbeCallback connection p ->
  p = length front ->
  promises w = front ++ Pending :: back ->
  promises (complete i err data w)
  = front ++ (if truthy err then Pending
              else Fulfilled (VConnection connection)) :: back /\
  calls (complete i err data w) = calls w.
Proof.
  intros Hc Hh -> Hps. unfold complete. rewrite Hc, Hh. simpl.
  unfold run_task, probe_callback. destruct (truthy err); simpl; [done |].
  by rewrite (settle_at front back).
Qed.

(** X3. Two [connect]s, on any two managers and configurations, whose
    probes are both in flight: each returns a promise of its own, and each
    probe's completion decides the promise of its own [connect] and no
    other, with its own connection, in whichever order the two completions
    arrive and whether the other probe failed or not. An error leaves the
    promise pending. *)
Theorem concurrent_connects_keep_apart this1 this2 config1 config2 w
    err1 data1 err2 data2
    (Hlater1 : immediate (client_of this1 config1) (probe_params config1) = None)
    (Hlater2 : immediate (client_of this2 config2) (probe_params config2) = None) :
  let first := connect this1 config1 w in
  let second := connect this2 config2 first.2 in
  let i := length (calls w) in
  let outcome1 :=
    if truthy err1 then Pending
    else Fulfilled (VConnection (connection_of this1 config1)) in
  let outcome2 :=
    if truthy err2 then Pending
    else Fulfilled (VConnection (connection_of this2 config2)) in
  first.1 = Returned (length (promises w)) /\
  second.1 = Returned (S (length (promises w))) /\
  promises (complete (S i) err2 data2 (complete i err1 data1 second.2))
  = promises w ++ [outcome1; outcome2] /\
  promises (complete i err1 data1 (complete (S i) err2 data2 second.2))
  = promises w ++ [outcome1; outcome2].
Proof.
  intros first second i outcome1 outcome2.
  unfold second, first. rewrite (connect_deferred this1 config1 w Hlater1).
  simpl. rewrite (connect_deferred _ _ _ Hlater2). simpl.
  set (w1 := probing this1 config1 w Pending).
  set (w2 := probing this2 config2 w1 Pending).
  assert (Hc1 : calls w2 !! i = Some (probe_call this1 config1 w)).
  { simpl. rewrite <- app_assoc. by apply list_lookup_middle. }
  assert (Hc2 : calls w2 !! S i = Some (probe_call this2 config2 w1)).
  { simpl. apply list_lookup_middle. rewrite length_app. simpl. unfold i. lia. }
  assert (Hp2 : length (promises w1) = S (length (promises w))).
  { simpl. rewrite length_app. simpl. lia. }
  split_and!.
  - done.
  - f_equal. exact Hp2.
  - destruct (complete_pending_probe i err1 data1 w2 _ _ _
                (promises w) [Pending] Hc1 eq_refl eq_refl) as [Hps Hcs].
    { simpl. by rewrite <- app_assoc. }
    destruct (complete_pending_probe (S i) err2 data2
                (complete i err1 data1 w2) _ _ _
                (promises w ++ [outcome1]) [] ltac:(by rewrite Hcs) eq_refl)
      as [Hps' _].
    { rewrite Hp2, length_app. simpl. lia. }
    { rewrite Hps. by rewrite <- app_assoc. }
    rewrite Hps'. by rewrite <- app_assoc.
  - destruct (complete_pending_probe (S i) err2 data2 w2 _ _ _
                (promises w ++ [Pending]) [] Hc2 eq_refl) as [Hps Hcs].
    { rewrite Hp2, length_app. simpl. lia. }
    { done. }
    destruct (complete_pending_probe i err1 data1
                (complete (S i) err2 data2 w2) _ _ _
                (promises w) [outcome2] ltac:(by rewrite Hcs) eq_refl eq_refl)
      as [Hps' _].
    { rewrite Hps. by rewrite <- app_assoc. }
    exact Hps'.
Qed.

Lemma concurrent_connects_keep_apart_witness :
  let this := Sample.manager Sample.deferred_lib in
  let other :=
    {| dialectOptions :=
         {| awsConfig := JObj []; awsSecretStoreArn := JStr "secret2";
            dbClusterOrInstanceArn := JStr "arn2"; database := JStr "db2";
            schema := JUndefined |} |} in
  let both := (connect this other (connect this Sample.db1 idle).2).2 in
  promises (complete 0 Sample.refused JUndefined (complete 1 JNull JUndefined both))
  = [Pending; Fulfilled (VConnection (connection_of this other))].
Proof.
  intros this other both.
  exact (proj2 (proj2 (proj2
    (concurrent_connects_keep_apart this this Sample.db1 other idle
       Sample.refused JUndefined JNull JUndefined eq_refl eq_refl)))).
Defined.

(** ** The classification, read backwards *)

Lemma is_string_false label v : is_string label v = false <-> v <> JStr label.
Proof.
  split.
  - intros Hf Heq. apply is_string_spec in Heq. congruence.
  - apply is_string_other.
Qed.

(** X4. The kind of the typed error tells the code apart: each of the five
    special kinds is produced for its own [err.code] and for no other, and
    the generic kind exactly when [err.code] is none of the five. *)
Theorem classify_kind_exact err :
  let code := get_prop "code" err in
  let kind := kind_of (classify err) in
  (kind = ConnectionRefused <-> code = JStr "ECONNREFUSED") /\
  (kind = AccessDenied <-> code = JStr "ER_ACCESS_DENIED_ERROR") /\
  (kind = HostNotFound <-> code = JStr "ENOTFOUND") /\
  (kind = HostNotReachable <-> code = JStr "EHOSTUNREACH") /\
  (kind = InvalidConnection <-> code = JStr "EINVAL") /\
  (kind = GenericConnectionError <->
     code <> JStr "ECONNREFUSED" /\ code <> JStr "ER_ACCESS_DENIED_ERROR" /\
     code <> JStr "ENOTFOUND" /\ code <> JStr "EHOSTUNREACH" /\
     code <> JStr "EINVAL").
Proof.
  intros code kind. unfold kind, classify. fold code.
  destruct (is_string "ECONNREFUSED" code) eqn:H1;
    [apply is_string_spec in H1 | apply is_string_false in H1];
  (destruct (is_string "ER_ACCESS_DENIED_ERROR" code) eqn:H2;
    [apply is_string_spec in H2 | apply is_string_false in H2]);
  (destruct (is_string "ENOTFOUND" code) eqn:H3;
    [apply is_string_spec in H3 | apply is_string_false in H3]);
  (destruct (is_string "EHOSTUNREACH" code) eqn:H4;
    [apply is_string_spec in H4 | apply is_string_false in H4]);
  (destruct (is_string "EINVAL" code) eqn:H5;
    [apply is_string_spec in H5 | apply is_string_false in H5]);
  simpl; try congruence;
  repeat split; try discriminate; try congruence; try tauto.
Qed.

Lemma own_prop_missing name props :
  name ∉ props.*1 -> own_prop name props = JUndefined.
Proof.
  induction props as [|[k v] rest IH]; intros Hout; simpl; [done |].
  rewrite fmap_cons in Hout. apply not_elem_of_cons in Hout as [Hne Hrest].
  simpl in Hne. destruct (String.eqb k name) eqn:Hk.
  - apply String.eqb_eq in Hk. congruence.
  - by apply IH.
Qed.

(** X5. An error that carries no [code], be it a string, a number, [true]
    or an object without that property, makes the probe callback throw the
    generic [ConnectionError] around it, in whatever world it runs. *)
Theorem error_without_code_is_generic connection resolve err w
    (Herr : truthy err = true)
    (Hnocode : match err with
               | JObj props => "code" ∉ props.*1
               | _ => True
               end) :
  probe_callback connection resolve err w
  = (Threw (Typed (ConnectionError err)), w).
Proof.
  unfold probe_callback. rewrite Herr. unfold throw. do 2 f_equal.
  unfold classify.
  assert (Hcode : get_prop "code" err = JUndefined).
  { destruct err; try done. simpl. by apply own_prop_missing. }
  by rewrite Hcode.
Qed.

Lemma error_without_code_is_generic_witness :
  let this := Sample.manager Sample.deferred_lib in
  let connection := connection_of this Sample.db1 in
  probe_callback connection 0 (JStr "socket hang up") idle
  = (Threw (Typed (ConnectionError (JStr "socket hang up"))), idle) /\
  probe_callback connection 0 (JObj [("message", JStr "timeout")]) idle
  = (Threw (Typed (ConnectionError (JObj [("message", JStr "timeout")]))), idle).
Proof.
  intros this connection. split.
  - apply error_without_code_is_generic; [reflexivity | exact I].
  - apply error_without_code_is_generic; [reflexivity |].
    simpl. apply not_elem_of_cons. split; [discriminate | apply not_elem_of_nil].
Defined.

(** ** Construction, again *)

Lemma install_cons store dataType rest :
  install store (dataType :: rest)
  = install (parserStore.refresh dataType store) rest.
Proof. reflexivity. Qed.

Lemma install_lookup (T : string) dataTypes (store : gmap string DecodeFn) :
  install store dataTypes !! T
  = match last_parse T dataTypes with
    | Some f => Some f
    | None => store !! T
    end.
Proof.
  revert store. induction dataTypes as [|dataType rest IH]; intros store.
  - done.
  - rewrite install_cons, IH. simpl.
    destruct (last_parse T rest) as [f|]; [done |].
    unfold parserStore.refresh.
    destruct (String.eqb (typeId dataType) T) eqn:HT.
    + apply String.eqb_eq in HT as <-. apply lookup_insert_eq.
    + apply String.eqb_neq in HT. by apply lookup_insert_ne.
Qed.

Lemma install_twice dataTypes (store : gmap string DecodeFn) :
  install (install store dataTypes) dataTypes = install store dataTypes.
Proof.
  apply map_eq. intros T. rewrite !install_lookup.
  by destruct (last_parse T dataTypes).
Qed.

Lemma js_or_twice v d : truthy d = true -> js_or (js_or v d) d = js_or v d.
Proof.
  intros Hd. unfold js_or. destruct (truthy v) eqn:Hv.
  - by rewrite Hv.
  - by rewrite Hd.
Qed.

(** X6. The port that a construction leaves in the engine configuration is
    always truthy, and a second construction on the same engine, with the
    same table of data types, changes nothing any more: neither the engine
    nor the world with its parser store. *)
Theorem constructor_twice (DataTypes : list DataType) (load load' : string -> Lib)
    (dialect dialect' : JsVal) (engine : Sequelize) (w : World) :
  let built := constructor DataTypes load dialect engine w in
  exists this,
    built.1 = Returned this /\
    truthy (port (config (sequelize this))) = true /\
    let again := constructor DataTypes load' dialect' (sequelize this) built.2 in
    exists this',
      again.1 = Returned this' /\
      sequelize this' = sequelize this /\
      again.2 = built.2.
Proof.
  intros built. unfold built, constructor, bind.
  rewrite refreshTypeParser_installs. simpl.
  eexists. split; [reflexivity |]. simpl. split.
  { unfold js_or. by destruct (truthy (port (config engine))) eqn:Hp. }
  rewrite refreshTypeParser_installs. simpl.
  eexists. split; [reflexivity |]. simpl. split.
  - by rewrite js_or_twice.
  - unfold set_parsers. simpl. by rewrite install_twice.
Qed.

(** X7. Once a manager has been constructed, [_typecast] bound to it
    decodes a field whose type is in the dialect's table with the last
    function the table has for that type, and hands that function the
    options of the engine the manager was constructed with. *)
Theorem typecast_after_construction (DataTypes : list DataType)
    (load : string -> Lib) (dialect : JsVal) (engine : Sequelize) (w : World)
    (field : FieldMeta) (next : Next) (f : DecodeFn)
    (Htable : last_parse (type field) DataTypes = Some f) :
  let built := constructor DataTypes load dialect engine w in
  exists this,
    built.1 = Returned this /\
    _typecast (bound_to this) field next built.2
    = (f field (options engine) next, built.2).
Proof.
  intros built. unfold built, constructor, bind.
  rewrite refreshTypeParser_installs. simpl.
  eexists. split; [reflexivity |].
  unfold _typecast, bind, gets, parserStore.get. simpl.
  rewrite install_lookup, Htable. simpl.
  by rewrite install_lookup, Htable.
Qed.

Lemma typecast_after_construction_witness :
  let DataTypes :=
    [ {| typeId := "DATETIME"; parse := fun _ _ next => next tt |};
      {| typeId := "DATE"; parse := fun _ _ next => next tt |};
      {| typeId := "DATETIME"; parse := Sample.upper |} ] in
  let built :=
    constructor DataTypes (fun _ => Sample.deferred_lib) JNull Sample.engine idle in
  exists this,
    built.1 = Returned this /\
    _typecast (bound_to this) Sample.datetime Sample.passthrough built.2
    = (Returned (JObj [("decoded", JStr "2019-01-01");
                       ("options", JObj [("timezone", JStr "+00:00")])]),
       built.2).
Proof.
  intros DataTypes built.
  exact (typecast_after_construction DataTypes (fun _ => Sample.deferred_lib)
           JNull Sample.engine idle Sample.datetime Sample.passthrough
           Sample.upper eq_refl).
Defined.

(** X8. After [_clearTypeParser], [_typecast] answers every field with
    what [next()] returns, whatever its receiver: with no function left it
    does not read [this], so even a call without receiver does not throw. *)
Theorem typecast_after_clear (this : Receiver) (field : FieldMeta)
    (next : Next) (w : World) :
  let cleared := (_clearTypeParser w).2 in
  _typecast this field next cleared = (next tt, cleared).
Proof.
  intros cleared. unfold _typecast, bind, gets, parserStore.get. simpl.
  unfold parserStore.clear. by rewrite lookup_empty.
Qed.

(** ** Queries *)

(** X9. A connection outlives [disconnect]: a query made after it has the
    effect it would have had before it. The two commute. *)
Theorem query_after_disconnect q request name connection w :
  let asked := call_query q request (CallerHandler name) w in
  call_query q request (CallerHandler name) (disconnect connection w).2
  = (asked.1, (disconnect connection asked.2).2).
Proof.
  destruct q as [rds captured]. simpl.
  unfold call_query, executeSql, bind, modify. simpl.
  by destruct (immediate rds _) as [[err data]|].
Qed.

(** X10. Two queries in flight, on any two closures whose clients answer
    later: each completion is passed to the handler of its own query, with
    its own error and result, in the order in which the completions arrive
    and not the one in which the queries were made. *)
Theorem completions_reach_their_handlers rds1 rds2 captured1 captured2
    request1 request2 name1 name2 err1 data1 err2 data2 w
    (Hlater1 : forall ps, immediate rds1 ps = None)
    (Hlater2 : forall ps, immediate rds2 ps = None) :
  let w1 := (call_query (QueryClosure rds1 captured1) request1
               (CallerHandler name1) w).2 in
  let w2 := (call_query (QueryClosure rds2 captured2) request2
               (CallerHandler name2) w1).2 in
  let i := length (calls w) in
  let told1 := {| callee := name1; err_arg := err1; data_arg := data1 |} in
  let told2 := {| callee := name2; err_arg := err2; data_arg := data2 |} in
  invocations (complete i err1 data1 (complete (S i) err2 data2 w2))
  = invocations w ++ [told2; told1] /\
  invocations (complete (S i) err2 data2 (complete i err1 data1 w2))
  = invocations w ++ [told1; told2].
Proof.
  intros w1 w2 i told1 told2.
  unfold w2, w1, call_query, executeSql, bind, modify. simpl.
  rewrite Hlater1. simpl. rewrite Hlater2. simpl.
  set (c1 := {| client := rds1; params := _; handler := CallerHandler name1 |}).
  set (c2 := {| client := rds2; params := _; handler := CallerHandler name2 |}).
  assert (H1 : ((calls w ++ [c1]) ++ [c2]) !! i = Some c1).
  { rewrite <- app_assoc. by apply list_lookup_middle. }
  assert (H2 : ((calls w ++ [c1]) ++ [c2]) !! S i = Some c2).
  { apply list_lookup_middle. rewrite length_app. simpl. unfold i. lia. }
  split.
  - unfold complete at 2. simpl. rewrite H2. simpl.
    unfold complete. simpl. rewrite H1. simpl. by rewrite <- app_assoc.
  - unfold complete at 2. simpl. rewrite H1. simpl.
    unfold complete. simpl. rewrite H2. simpl. by rewrite <- app_assoc.
Qed.

Lemma completions_reach_their_handlers_witness :
  let this := Sample.manager Sample.deferred_lib in
  let connection := connection_of this Sample.db1 in
  let first := (call_query (query connection) {| sql := JStr "SELECT 1" |}
                  (CallerHandler 1) idle).2 in
  let second := (call_query (execute connection) {| sql := JStr "SELECT 2" |}
                   (CallerHandler 2) first).2 in
  invocations (complete 0 Sample.refused JUndefined
                 (complete 1 JNull (JStr "two") second))
  = [ {| callee := 2; err_arg := JNull; data_arg := JStr "two" |};
      {| callee := 1; err_arg := Sample.refused; data_arg := JUndefined |} ].
Proof.
  intros this connection first second.
  exact (proj1 (completions_reach_their_handlers
                  (client_of this Sample.db1) (client_of this Sample.db1)
                  (dialectOptions Sample.db1) (dialectOptions Sample.db1)
                  {| sql := JStr "SELECT 1" |} {| sql := JStr "SELECT 2" |}
                  1 2 Sample.refused JUndefined JNull (JStr "two") idle
                  (fun _ => eq_refl) (fun _ => eq_refl))).
Defined.
